(** * A shallow embedding of the task-list view-model (src/app/app.ts)

    The component class [App] keeps its data in signals ([filter], [search],
    [sort], [tasks]), a plain [draft] object and the private counter
    [#nextId].  Every method runs to completion inside one UI event, so the
    class is modelled by explicit state passing: a record [App.t] holding the
    fields, one function per method, and an [Event] type whose constructors
    are the calls the template can make.

    Conventions of the model.
    - A JavaScript string is a [string]: a sequence of code units, here
      restricted to the range U+0000..U+00FF.
    - A JavaScript number that only ever holds task ids, ranks or counts is
      an integer of [Z]; the counter starts at 4 and grows by one per call,
      which doubles represent exactly below 2^53.
    - The clock is an input: [new Date().toISOString()] is the argument
      [now] of [addTask], and the five clock-derived strings of the seed
      are the fields of [Seed.t].
    - [NgForm.resetForm] acts on the form directive, an object outside the
      class; only the assignment to [this.draft] is state of the model. *)

From Stdlib Require Import ZArith List String Ascii Bool Lia.
From Stdlib Require Import Sorted Permutation.
Import ListNotations.

Local Open Scope string_scope.
Local Open Scope list_scope.
Local Open Scope Z_scope.

(** ** Host functions: String.prototype and Array.prototype *)

Module Js.

(** ToBoolean on a string: only the empty string is falsy. *)
Definition truthy (s : string) : bool :=
  match s with
  | EmptyString => false
  | String _ _ => true
  end.

(** ToBoolean on an optional string property: [undefined] is falsy too. *)
Definition truthy_opt (o : option string) : bool :=
  match o with
  | None => false
  | Some s => truthy s
  end.

(** [x || undefined] *)
Definition or_undefined (s : string) : option string :=
  if truthy s then Some s else None.

(** WhiteSpace and LineTerminator code points below U+0100:
    TAB, LF, VT, FF, CR, SP and NBSP. *)
Definition isWhiteSpace (c : ascii) : bool :=
  let n := N_of_ascii c in
  ((9 <=? n) && (n <=? 13) || (n =? 32) || (n =? 160))%N.

Fixpoint trimStart (s : string) : string :=
  match s with
  | EmptyString => EmptyString
  | String c r => if isWhiteSpace c then trimStart r else s
  end.

Fixpoint trimEnd (s : string) : string :=
  match s with
  | EmptyString => EmptyString
  | String c r =>
      match trimEnd r with
      | EmptyString => if isWhiteSpace c then EmptyString else String c EmptyString
      | r' => String c r'
      end
  end.

(** String.prototype.trim *)
Definition trim (s : string) : string := trimEnd (trimStart s).

(** Lower-case mapping of one code unit below U+0100: A..Z and the
    Latin-1 capitals U+00C0..U+00DE (U+00D7, the multiplication sign,
    excepted) move up by 32; everything else is its own lower case. *)
Definition lowerChar (c : ascii) : ascii :=
  let n := N_of_ascii c in
  if ((65 <=? n) && (n <=? 90)
      || (192 <=? n) && (n <=? 222) && negb (n =? 215))%N
  then ascii_of_N (n + 32)
  else c.

(** String.prototype.toLowerCase *)
Fixpoint toLowerCase (s : string) : string :=
  match s with
  | EmptyString => EmptyString
  | String c r => String (lowerChar c) (toLowerCase r)
  end.

(** String.prototype.includes: [sub] starts at some position of [s]. *)
Fixpoint includes (s sub : string) : bool :=
  String.prefix sub s
  || match s with
     | EmptyString => false
     | String _ r => includes r sub
     end.

(** String.prototype.localeCompare, as a sign.  The host's collation is
    modelled by the order of code units; the two agree on the strings
    the application compares, dates [YYYY-MM-DD] and ISO-8601 timestamps,
    which differ from one another in digit positions only. *)
Definition localeCompare (a b : string) : Z :=
  match String.compare a b with
  | Lt => -1
  | Eq => 0
  | Gt => 1
  end.

Section Sort.
Context {A : Type}.
Variable cmp : A -> A -> Z.

(** [x] stood before every element of [l] in the array: it moves right
    past the elements it is strictly greater than, and stops at the
    first one it is not. *)
Fixpoint insert (x : A) (l : list A) : list A :=
  match l with
  | [] => [x]
  | y :: l' => if 0 <? cmp x y then y :: insert x l' else x :: l
  end.

(** Array.prototype.sort with a comparator.  ECMAScript requires the
    sort to be stable, so for a consistent comparator the result does
    not depend on the algorithm; it is computed here by insertion. *)
Fixpoint sort (l : list A) : list A :=
  match l with
  | [] => []
  | x :: l' => insert x (sort l')
  end.
End Sort.

End Js.

(** ** Data model *)

Inductive Priority := Low | Medium | High.
Inductive Filter := All | Active | Completed.
Inductive SortKey := Created | Due | ByPriority.

Module Task.
Record t := mk {
  id : Z;
  title : string;
  notes : string;
  priority : Priority;
  dueDate : option string;
  completed : bool;
  createdAt : string
}.

(** [{ ...task, completed: b }] *)
Definition with_completed (b : bool) (x : t) : t :=
  mk (id x) (title x) (notes x) (priority x) (dueDate x) b (createdAt x).
End Task.

Module Draft.
Record t := mk {
  title : string;
  notes : string;
  dueDate : string;
  priority : Priority
}.

(** [{ title: '', notes: '', dueDate: '', priority: 'medium' }] *)
Definition defaults : t := mk "" "" "" Medium.
End Draft.

Module Stats.
Record t := mk { total : Z; completed : Z; active : Z }.
End Stats.

(** The strings the seed reads off the clock at start-up. *)
Module Seed.
Record t := mk {
  created1 : string;
  due1 : string;
  created2 : string;
  created3 : string;
  due3 : string
}.
End Seed.

(** ** The component *)

Module App.

Record t := mk {
  filter : Filter;
  search : string;
  sort : SortKey;
  tasks : list Task.t;
  draft : Draft.t;
  nextId : Z
}.

Definition set_tasks (l : list Task.t) (a : t) : t :=
  mk (filter a) (search a) (sort a) l (draft a) (nextId a).

Definition set_draft (d : Draft.t) (a : t) : t :=
  mk (filter a) (search a) (sort a) (tasks a) d (nextId a).

Definition seedTasks (s : Seed.t) : list Task.t :=
  [ Task.mk 1 "Draft weekly sprint goals"
      "Share with the team in the Monday stand-up."
      High (Some (Seed.due1 s)) false (Seed.created1 s);
    Task.mk 2 "Review pull requests"
      "Focus on the UI polish tasks before the release."
      Medium None true (Seed.created2 s);
    Task.mk 3 "Plan usability testing session"
      "Collect feedback questions and invite participants."
      Low (Some (Seed.due3 s)) false (Seed.created3 s) ].

(** The field initialisers of the class. *)
Definition init (s : Seed.t) : t :=
  mk All "" Created (seedTasks s) Draft.defaults 4.

(** [stats] *)
Definition stats (a : t) : Stats.t :=
  let items := tasks a in
  let completed := Z.of_nat (List.length (List.filter Task.completed items)) in
  Stats.mk (Z.of_nat (List.length items)) completed
           (Z.of_nat (List.length items) - completed).

Definition matchesFilter (f : Filter) (x : Task.t) : bool :=
  match f with
  | All => true
  | Active => negb (Task.completed x)
  | Completed => Task.completed x
  end.

(** [search] is the text already trimmed and lower-cased. *)
Definition matchesSearch (search : string) (x : Task.t) : bool :=
  negb (Js.truthy search)
  || Js.includes (Js.toLowerCase (Task.title x)) search
  || Js.includes (Js.toLowerCase (Task.notes x)) search.

(** The comparator of the [due] branch. *)
Definition compareDue (x y : Task.t) : Z :=
  match Task.dueDate x, Task.dueDate y with
  | Some dx, Some dy =>
      if Js.truthy dx then
        if Js.truthy dy then Js.localeCompare dx dy else -1
      else
        if Js.truthy dy then 1 else 0
  | Some dx, None => if Js.truthy dx then -1 else 0
  | None, Some dy => if Js.truthy dy then 1 else 0
  | None, None => 0
  end.

(** [order: Record<Priority, number>] *)
Definition order (p : Priority) : Z :=
  match p with
  | High => 0
  | Medium => 1
  | Low => 2
  end.

Definition comparePriority (x y : Task.t) : Z :=
  order (Task.priority x) - order (Task.priority y).

Definition compareCreated (x y : Task.t) : Z :=
  Js.localeCompare (Task.createdAt y) (Task.createdAt x).

Definition comparator (k : SortKey) : Task.t -> Task.t -> Z :=
  match k with
  | Due => compareDue
  | ByPriority => comparePriority
  | Created => compareCreated
  end.

(** The array [filtered] of [visibleTasks]. *)
Definition filtered (a : t) : list Task.t :=
  let search := Js.toLowerCase (Js.trim (search a)) in
  List.filter
    (fun x => matchesFilter (filter a) x && matchesSearch search x)
    (tasks a).

(** [visibleTasks] *)
Definition visibleTasks (a : t) : list Task.t :=
  Js.sort (comparator (sort a)) (filtered a).

(** [addTask]; [now] is [new Date().toISOString()]. *)
Definition addTask (now : string) (a : t) : t :=
  let title := Js.trim (Draft.title (draft a)) in
  if negb (Js.truthy title) then a
  else
    let task :=
      Task.mk (nextId a) title
              (Js.trim (Draft.notes (draft a)))
              (Draft.priority (draft a))
              (Js.or_undefined (Draft.dueDate (draft a)))
              false now in
    mk (filter a) (search a) (sort a) (tasks a ++ [task])
       Draft.defaults (nextId a + 1).

Definition toggleCompletion (taskId : Z) (a : t) : t :=
  set_tasks
    (map (fun x => if Task.id x =? taskId
                   then Task.with_completed (negb (Task.completed x)) x
                   else x)
         (tasks a))
    a.

Definition removeTask (taskId : Z) (a : t) : t :=
  set_tasks (List.filter (fun x => negb (Task.id x =? taskId)) (tasks a)) a.

Definition updateFilter (f : Filter) (a : t) : t :=
  mk f (search a) (sort a) (tasks a) (draft a) (nextId a).

Definition updateSort (k : SortKey) (a : t) : t :=
  mk (filter a) (search a) k (tasks a) (draft a) (nextId a).

Definition onSortChange (value : SortKey) (a : t) : t := updateSort value a.

Definition onSearchChange (value : string) (a : t) : t :=
  mk (filter a) value (sort a) (tasks a) (draft a) (nextId a).

Definition clearCompleted (a : t) : t :=
  set_tasks (List.filter (fun x => negb (Task.completed x)) (tasks a)) a.

Definition completeAll (a : t) : t :=
  set_tasks (map (Task.with_completed true) (tasks a)) a.

End App.

(** ** Events

    What the template can do to the component between two renderings: call
    one of its methods, or write the draft through the two-way bound form
    fields. *)

Inductive Event :=
| EditDraft (d : Draft.t)
| AddTask (now : string)
| ToggleCompletion (taskId : Z)
| RemoveTask (taskId : Z)
| UpdateFilter (f : Filter)
| UpdateSort (k : SortKey)
| SearchChange (text : string)
| ClearCompleted
| CompleteAll.

Definition step (a : App.t) (e : Event) : App.t :=
  match e with
  | EditDraft d => App.set_draft d a
  | AddTask now => App.addTask now a
  | ToggleCompletion i => App.toggleCompletion i a
  | RemoveTask i => App.removeTask i a
  | UpdateFilter f => App.updateFilter f a
  | UpdateSort k => App.onSortChange k a
  | SearchChange s => App.onSearchChange s a
  | ClearCompleted => App.clearCompleted a
  | CompleteAll => App.completeAll a
  end.

Definition run (a : App.t) (es : list Event) : App.t := fold_left step es a.

(** ** Vocabulary of the statements *)

(** [sub] occurs in [s] as a contiguous block. *)
Definition substring_of (sub s : string) : Prop :=
  exists pre post, s = (pre ++ sub ++ post)%string.

(** Somewhere in [l] an element satisfying [P] stands to the left of one
    satisfying [Q]. *)
Definition stands_before {A} (P Q : A -> Prop) (l : list A) : Prop :=
  exists l1 x l2 y l3, l = l1 ++ x :: l2 ++ y :: l3 /\ P x /\ Q y.

Definition due_on (d : string) (x : Task.t) : Prop := Task.dueDate x = Some d.

Definition no_due (x : Task.t) : Prop := Js.truthy_opt (Task.dueDate x) = false.

Definition no_dueb (x : Task.t) : bool := negb (Js.truthy_opt (Task.dueDate x)).

Definition has_priority (p : Priority) (x : Task.t) : bool :=
  match p, Task.priority x with
  | Low, Low | Medium, Medium | High, High => true
  | _, _ => false
  end.

(** Every id in the store is below the counter, and no two tasks share
    one. *)
Definition ids_ok (a : App.t) : Prop :=
  Forall (fun x => Task.id x < App.nextId a) (App.tasks a)
  /\ NoDup (map Task.id (App.tasks a)).

(** The ids in use. *)
Definition ids (a : App.t) : list Z := map Task.id (App.tasks a).

(** [x] and [y] agree on every field but, possibly, [completed]. *)
Definition same_but_completed (x y : Task.t) : Prop :=
  Task.with_completed false x = Task.with_completed false y.

(** ** Sample data for the concrete statements *)

Module Sample.
Definition task (i : Z) (p : Priority) (due : option string) : Task.t :=
  Task.mk i "Task" "" p due false "2026-01-01T00:00:00.000Z".

Definition far : Task.t := task 1 Medium (Some "2099-01-01").
Definition near : Task.t := task 2 Medium (Some "2024-01-01").
Definition undated : Task.t := task 3 Medium None.
Definition undated' : Task.t := task 4 Medium None.

(** A store listing the far date first, viewed sorted by due date. *)
Definition by_due : App.t :=
  App.mk All "" Due [undated; far; undated'; near] Draft.defaults 5.

Definition seed : Seed.t :=
  Seed.mk "2026-01-10T09:00:00.000Z" "2026-01-11"
          "2026-01-08T09:00:00.000Z"
          "2026-01-09T09:00:00.000Z" "2026-01-17".

(** [A:low, B:high, C:high, D:medium] *)
Definition by_priority : App.t :=
  App.mk All "" ByPriority
         [task 1 Low None; task 2 High None; task 3 High None;
          task 4 Medium None]
         Draft.defaults 5.

(** The first two seeded tasks, searched for "pull". *)
Definition pull_search : App.t :=
  App.mk All "pull" Created (firstn 2 (App.seedTasks seed))
         Draft.defaults 4.

Definition now : string := "2026-01-12T10:30:00.000Z".

(** A draft with a blank title and the other fields filled in. *)
Definition blank_title : App.t :=
  App.mk All "" Created (App.seedTasks seed)
         (Draft.mk "   " "bring slides" "2026-02-01" High) 4.

(** A draft whose due date is not a calendar date. *)
Definition free_text_due : App.t :=
  App.mk All "" Created (App.seedTasks seed)
         (Draft.mk "  Book venue " " ask Ana  " "next week" Low) 4.

(** Remove the first seeded task, then type and add a new one. *)
Definition remove_first : list Event := [RemoveTask 1].
Definition add_one : list Event :=
  [EditDraft (Draft.mk "Book venue" "" "" Low); AddTask now].
End Sample.

(** ** Further vocabulary *)


(** [x] was created at the instant [c]. *)
Definition created_at (c : string) (x : Task.t) : bool :=
  String.eqb (Task.createdAt x) c.


(** The texts of a task are as [addTask] leaves them: a title that is not
    empty, and title and notes without white space at either end. *)
Definition texts_trimmed (x : Task.t) : Prop :=
  Task.title x <> ""
  /\ Js.trim (Task.title x) = Task.title x
  /\ Js.trim (Task.notes x) = Task.notes x.

(** The events that only change how the store is looked at. *)
Definition view_event (e : Event) : bool :=
  match e with
  | EditDraft _ | UpdateFilter _ | UpdateSort _ | SearchChange _ => true
  | _ => false
  end.

(** The store operations that take no input from the draft. *)
Definition store_event (e : Event) : bool :=
  match e with
  | ToggleCompletion _ | RemoveTask _ | ClearCompleted | CompleteAll => true
  | _ => false
  end.

(** ** Facts about the host functions *)

Section SortFacts.
Context {A : Type}.
Variable cmp : A -> A -> Z.

Lemma insert_perm x l : Permutation (Js.insert cmp x l) (x :: l).
Proof.
  induction l as [|y l IH]; simpl; [reflexivity|].
  destruct (0 <? cmp x y); [|reflexivity].
  rewrite IH. apply perm_swap.
Qed.

Lemma sort_perm l : Permutation (Js.sort cmp l) l.
Proof.
  induction l as [|x l IH]; simpl; [constructor|].
  rewrite insert_perm. now constructor.
Qed.

Lemma sort_In x l : In x (Js.sort cmp l) <-> In x l.
Proof.
  split; apply Permutation_in; [|symmetry]; apply sort_perm.
Qed.

(** Stability, class by class: elements of a class [p] that the
    comparator never orders strictly keep the order they came in. *)
Lemma insert_stable (p : A -> bool) x l :
  (forall y, In y l -> p x = true -> p y = true -> cmp x y <= 0) ->
  List.filter p (Js.insert cmp x l) = List.filter p (x :: l).
Proof.
  induction l as [|y l IH]; intros Hle; [reflexivity|].
  simpl. destruct (0 <? cmp x y) eqn:E; [|reflexivity].
  apply Z.ltb_lt in E.
  assert (p x = true -> p y = true -> False) as Hxy.
  { intros Px Py. specialize (Hle y (or_introl eq_refl) Px Py). lia. }
  simpl. rewrite IH by (intros; apply Hle; simpl; auto).
  simpl. destruct (p x), (p y); try reflexivity.
  now destruct Hxy.
Qed.

Lemma sort_stable (p : A -> bool) l :
  (forall x y, p x = true -> p y = true -> cmp x y <= 0) ->
  List.filter p (Js.sort cmp l) = List.filter p l.
Proof.
  intros Hle. induction l as [|x l IH]; [reflexivity|].
  simpl Js.sort. rewrite insert_stable by auto.
  simpl. now rewrite IH.
Qed.

(** For a comparator that is a total preorder the result is sorted. *)
Hypothesis cmp_total : forall x y, 0 < cmp x y -> cmp y x <= 0.
Hypothesis cmp_trans : forall x y z, cmp x y <= 0 -> cmp y z <= 0 -> cmp x z <= 0.

Let le x y := cmp x y <= 0.

Lemma insert_sorted x l :
  StronglySorted le l -> StronglySorted le (Js.insert cmp x l).
Proof.
  induction 1 as [|y l Hs IH Hy]; simpl.
  - repeat constructor.
  - destruct (0 <? cmp x y) eqn:E.
    + apply Z.ltb_lt in E. constructor; [assumption|].
      rewrite Forall_forall in *. intros z Hz.
      apply (Permutation_in _ (insert_perm x l)) in Hz.
      destruct Hz as [<-|Hz]; [now apply cmp_total | now apply Hy].
    + apply Z.ltb_ge in E. constructor; [now constructor|].
      constructor; [exact E|].
      rewrite Forall_forall in *. intros z Hz.
      apply cmp_trans with y; [exact E | now apply Hy].
Qed.

Lemma sort_sorted l : StronglySorted le (Js.sort cmp l).
Proof.
  induction l; simpl; [constructor | now apply insert_sorted].
Qed.
End SortFacts.

(** In a strongly sorted list whatever stands to the left is related to
    whatever stands to the right. *)
Lemma sorted_left_right {A} (R : A -> A -> Prop) l1 x l2 y l3 :
  StronglySorted R (l1 ++ x :: l2 ++ y :: l3) -> R x y.
Proof.
  induction l1 as [|z l1 IH]; simpl; intros H.
  - apply StronglySorted_inv in H as [_ H].
    rewrite Forall_forall in H. apply H.
    apply in_or_app. right. now left.
  - apply StronglySorted_inv in H as [H _]. auto.
Qed.

Lemma string_compare_trans a : forall b c,
  String.compare a b <> Gt -> String.compare b c <> Gt ->
  String.compare a c <> Gt.
Proof.
  induction a as [|x a IH]; intros [|y b] [|z c]; simpl; try congruence.
  unfold Ascii.compare.
  destruct (N.compare_spec (N_of_ascii x) (N_of_ascii y)),
           (N.compare_spec (N_of_ascii y) (N_of_ascii z)),
           (N.compare_spec (N_of_ascii x) (N_of_ascii z));
    try congruence; try lia; eauto.
Qed.

Lemma localeCompare_total a b :
  0 < Js.localeCompare a b -> Js.localeCompare b a <= 0.
Proof.
  unfold Js.localeCompare. rewrite (String.compare_antisym a b).
  destruct (String.compare b a); simpl; lia.
Qed.

Lemma localeCompare_trans a b c :
  Js.localeCompare a b <= 0 -> Js.localeCompare b c <= 0 ->
  Js.localeCompare a c <= 0.
Proof.
  unfold Js.localeCompare. intros H1 H2.
  assert (String.compare a c <> Gt) as H.
  { apply string_compare_trans with b.
    - destruct (String.compare a b); [discriminate..|lia].
    - destruct (String.compare b c); [discriminate..|lia]. }
  destruct (String.compare a c); [lia..|congruence].
Qed.

(** ** The comparators are total preorders *)

Lemma compareDue_total x y :
  0 < App.compareDue x y -> App.compareDue y x <= 0.
Proof.
  unfold App.compareDue.
  destruct (Task.dueDate x) as [[|c dx]|], (Task.dueDate y) as [[|c' dy]|];
    simpl; try lia.
  apply localeCompare_total.
Qed.

Lemma compareDue_trans x y z :
  App.compareDue x y <= 0 -> App.compareDue y z <= 0 ->
  App.compareDue x z <= 0.
Proof.
  unfold App.compareDue.
  destruct (Task.dueDate x) as [[|c dx]|], (Task.dueDate y) as [[|c' dy]|],
           (Task.dueDate z) as [[|c'' dz]|];
    simpl; try lia.
  apply localeCompare_trans.
Qed.

Lemma comparePriority_total x y :
  0 < App.comparePriority x y -> App.comparePriority y x <= 0.
Proof. unfold App.comparePriority. lia. Qed.

Lemma comparePriority_trans x y z :
  App.comparePriority x y <= 0 -> App.comparePriority y z <= 0 ->
  App.comparePriority x z <= 0.
Proof. unfold App.comparePriority. lia. Qed.

Lemma visibleTasks_perm a : Permutation (App.visibleTasks a) (App.filtered a).
Proof. apply sort_perm. Qed.

(** ** Sorting by due date *)

(** C1, as the specification words it, fails: listed by due date, the task
    due on 2024-01-01 stands before the one due on 2099-01-01, although the
    store holds them the other way round. *)
Lemma due_2024_stands_before_2099 :
  App.visibleTasks Sample.by_due
    = [Sample.near; Sample.far; Sample.undated; Sample.undated']
  /\ stands_before (due_on "2024-01-01") (due_on "2099-01-01")
       (App.visibleTasks Sample.by_due)
  /\ ~ stands_before (due_on "2099-01-01") (due_on "2024-01-01")
       (App.visibleTasks Sample.by_due).
Proof.
  assert (App.visibleTasks Sample.by_due
          = [Sample.near; Sample.far; Sample.undated; Sample.undated']) as E
    by reflexivity.
  split; [exact E|]. rewrite E. split.
  - exists [], Sample.near, [], Sample.far, [Sample.undated; Sample.undated'].
    repeat split.
  - intros (l1 & x & l2 & y & l3 & Hl & Hx & Hy).
    assert (StronglySorted (fun u v => App.compareDue u v <= 0)
              (l1 ++ x :: l2 ++ y :: l3)) as Hs.
    { rewrite <- Hl. repeat constructor; vm_compute; discriminate. }
    apply sorted_left_right in Hs.
    unfold App.compareDue, due_on in *. rewrite Hx, Hy in Hs.
    vm_compute in Hs. now apply Hs.
Qed.

(** C1, amended: with the sort key [due] the visible list is ascending by
    due date.  No task without a due date stands before a task due on
    2099-01-01; no task due on 2099-01-01 stands before a task due on
    2024-01-01; and the tasks without a due date are in the order in
    which they passed the filter, that is, in store order. *)
Theorem due_sort_order (a : App.t) :
  App.sort a = Due ->
  let out := App.visibleTasks a in
  Permutation out (App.filtered a)
  /\ ~ stands_before no_due (due_on "2099-01-01") out
  /\ ~ stands_before (due_on "2099-01-01") (due_on "2024-01-01") out
  /\ List.filter no_dueb out = List.filter no_dueb (App.filtered a).
Proof.
  intros Hk out.
  assert (StronglySorted (fun u v => App.compareDue u v <= 0) out) as Hs.
  { unfold out, App.visibleTasks. rewrite Hk.
    apply sort_sorted; [apply compareDue_total | apply compareDue_trans]. }
  split; [apply visibleTasks_perm|].
  split; [|split].
  - intros (l1 & x & l2 & y & l3 & Hl & Hx & Hy).
    rewrite Hl in Hs. apply sorted_left_right in Hs.
    unfold App.compareDue, no_due, due_on in *. rewrite Hy in Hs.
    destruct (Task.dueDate x) as [[|c d]|]; simpl in *; try discriminate; lia.
  - intros (l1 & x & l2 & y & l3 & Hl & Hx & Hy).
    rewrite Hl in Hs. apply sorted_left_right in Hs.
    unfold App.compareDue, due_on in *. rewrite Hx, Hy in Hs.
    vm_compute in Hs. now apply Hs.
  - unfold out, App.visibleTasks. rewrite Hk. apply sort_stable.
    clear Hs. intros x y Hx Hy. simpl. unfold no_dueb, App.compareDue in *.
    destruct (Task.dueDate x) as [[|c d]|], (Task.dueDate y) as [[|c' d']|];
      simpl in *; try discriminate; lia.
Qed.

Lemma due_sort_order_witness :
  App.sort Sample.by_due = Due
  /\ ~ stands_before (due_on "2099-01-01") (due_on "2024-01-01")
       (App.visibleTasks Sample.by_due)
  /\ List.filter no_dueb (App.visibleTasks Sample.by_due)
     = [Sample.undated; Sample.undated'].
Proof.
  split; [reflexivity|].
  destruct (due_sort_order Sample.by_due eq_refl) as (_ & _ & H & E).
  split; [exact H | exact E].
Defined.

(** ** Sorting by priority *)

Lemma filtered_all (a : App.t) :
  App.filter a = All -> Js.trim (App.search a) = "" ->
  App.filtered a = App.tasks a.
Proof.
  intros Hf Hq. unfold App.filtered, App.matchesSearch. rewrite Hf, Hq. simpl.
  induction (App.tasks a) as [|x l IH]; simpl; congruence.
Qed.

(** C7: with the sort key [priority] the visible list holds the tasks that
    passed the filter, ascending by rank (high 0, medium 1, low 2), and the
    tasks of each priority are in the order in which they came; a store
    [A:low, B:high, C:high, D:medium] shown unfiltered is listed as
    [B, C, D, A]. *)
Theorem priority_sort_order (a : App.t) :
  App.sort a = ByPriority ->
  let out := App.visibleTasks a in
  Permutation out (App.filtered a)
  /\ StronglySorted
       (fun x y => App.order (Task.priority x) <= App.order (Task.priority y))
       out
  /\ (forall p, List.filter (has_priority p) out
                = List.filter (has_priority p) (App.filtered a))
  /\ (forall tA tB tC tD,
        App.filter a = All -> Js.trim (App.search a) = "" ->
        App.tasks a = [tA; tB; tC; tD] ->
        Task.priority tA = Low -> Task.priority tB = High ->
        Task.priority tC = High -> Task.priority tD = Medium ->
        out = [tB; tC; tD; tA]).
Proof.
  intros Hk out. split; [apply visibleTasks_perm|].
  unfold out, App.visibleTasks. rewrite Hk. simpl App.comparator.
  split; [|split].
  - pose proof (sort_sorted App.comparePriority comparePriority_total
                  comparePriority_trans (App.filtered a)) as Hs.
    eapply StronglySorted_ind with (P := fun l => StronglySorted _ l);
      [constructor | | exact Hs].
    intros x l _ IH Hx. constructor; [exact IH|].
    eapply Forall_impl; [|exact Hx].
    unfold App.comparePriority. intros; simpl in *; lia.
  - intros p. apply sort_stable. intros x y Hx Hy.
    unfold has_priority, App.comparePriority in *.
    destruct p, (Task.priority x), (Task.priority y);
      simpl; try discriminate; lia.
  - intros tA tB tC tD Hf Hq Hl HA HB HC HD.
    rewrite (filtered_all a Hf Hq), Hl.
    destruct tA, tB, tC, tD. simpl in HA, HB, HC, HD. subst. reflexivity.
Qed.

Lemma priority_sort_order_witness :
  App.sort Sample.by_priority = ByPriority
  /\ App.visibleTasks Sample.by_priority
     = [Sample.task 2 High None; Sample.task 3 High None;
        Sample.task 4 Medium None; Sample.task 1 Low None].
Proof.
  split; [reflexivity|].
  destruct (priority_sort_order Sample.by_priority eq_refl) as (_ & _ & _ & H).
  apply H; reflexivity.
Defined.

(** ** Searching *)

Lemma prefix_spec sub : forall s,
  String.prefix sub s = true <-> exists post, s = (sub ++ post)%string.
Proof.
  induction sub as [|c sub IH]; intros s; simpl.
  - destruct s; split; eauto.
  - destruct s as [|d s]; simpl.
    + split; [discriminate | intros [post H]; discriminate].
    + destruct (ascii_dec c d) as [->|Hne].
      * rewrite IH. split; intros [post H]; exists post; congruence.
      * split; [discriminate | intros [post H]; congruence].
Qed.

Lemma includes_spec s : forall sub,
  Js.includes s sub = true <-> substring_of sub s.
Proof.
  unfold substring_of.
  induction s as [|c s IH]; intros sub;
    [ change (Js.includes "" sub) with (String.prefix sub "" || false)
    | change (Js.includes (String c s) sub)
        with (String.prefix sub (String c s) || Js.includes s sub) ];
    rewrite orb_true_iff, prefix_spec.
  - split.
    + intros [[post H]|H]; [|discriminate]. now exists "", post.
    + intros (pre & post & H). left.
      destruct pre; [|discriminate]. now exists post.
  - rewrite IH. split.
    + intros [[post H]|(pre & post & H)].
      * now exists "", post.
      * exists (String c pre), post. simpl. now rewrite H.
    + intros (pre & post & H). destruct pre as [|d pre]; simpl in H.
      * left. now exists post.
      * right. exists pre, post. congruence.
Qed.

Lemma truthy_false s : Js.truthy s = false <-> s = "".
Proof. destruct s; simpl; split; congruence. Qed.

Lemma truthy_true s : Js.truthy s = true <-> s <> "".
Proof. destruct s; simpl; split; congruence. Qed.

Lemma toLowerCase_empty s : Js.toLowerCase s = "" <-> s = "".
Proof. destruct s; simpl; split; congruence. Qed.

Lemma matchesSearch_spec q x :
  App.matchesSearch q x = true <->
  q = "" \/ substring_of q (Js.toLowerCase (Task.title x))
         \/ substring_of q (Js.toLowerCase (Task.notes x)).
Proof.
  unfold App.matchesSearch.
  rewrite !orb_true_iff, negb_true_iff, truthy_false, !includes_spec.
  tauto.
Qed.

Lemma visibleTasks_In a x :
  In x (App.visibleTasks a) <->
  In x (App.tasks a)
  /\ App.matchesFilter (App.filter a) x = true
  /\ App.matchesSearch (Js.toLowerCase (Js.trim (App.search a))) x = true.
Proof.
  unfold App.visibleTasks. rewrite sort_In. unfold App.filtered.
  rewrite filter_In, andb_true_iff. reflexivity.
Qed.

(** C8: when the search text, trimmed and lower-cased, is not empty, the
    visible list holds exactly the tasks of the store that pass the filter
    and whose lower-cased title or notes contain it as a substring; when
    the trimmed text is empty it holds exactly the tasks that pass the
    filter.  Over the two tasks titled "Draft weekly sprint goals" and
    "Review pull requests", the first without "pull" in its notes, the
    search "pull" shows the second alone. *)
Theorem search_stage (a : App.t) :
  let q := Js.toLowerCase (Js.trim (App.search a)) in
  let out := App.visibleTasks a in
  (q <> "" ->
   forall x, In x out <->
     In x (App.tasks a)
     /\ App.matchesFilter (App.filter a) x = true
     /\ (substring_of q (Js.toLowerCase (Task.title x))
         \/ substring_of q (Js.toLowerCase (Task.notes x))))
  /\ (Js.trim (App.search a) = "" ->
      forall x, In x out <->
        In x (App.tasks a) /\ App.matchesFilter (App.filter a) x = true)
  /\ (forall t1 t2,
        App.tasks a = [t1; t2] -> App.filter a = All ->
        App.search a = "pull" ->
        Task.title t1 = "Draft weekly sprint goals" ->
        Task.title t2 = "Review pull requests" ->
        ~ substring_of "pull" (Js.toLowerCase (Task.notes t1)) ->
        out = [t2]).
Proof.
  intros q out. split; [|split].
  - intros Hq x. unfold out. rewrite visibleTasks_In, matchesSearch_spec.
    fold q. tauto.
  - intros Hq x. unfold out. rewrite visibleTasks_In, matchesSearch_spec.
    rewrite Hq. simpl. tauto.
  - intros t1 t2 Hl Hf Hs H1 H2 Hn.
    unfold out, App.visibleTasks, App.filtered. rewrite Hl, Hf, Hs.
    change (Js.toLowerCase (Js.trim "pull")) with "pull".
    rewrite <- includes_spec in Hn. apply not_true_is_false in Hn.
    cbn [List.filter App.matchesFilter andb].
    unfold App.matchesSearch. rewrite H1, H2, Hn.
    change (Js.includes (Js.toLowerCase "Draft weekly sprint goals") "pull")
      with false.
    change (Js.includes (Js.toLowerCase "Review pull requests") "pull")
      with true.
    reflexivity.
Qed.

Lemma search_stage_witness :
  App.visibleTasks Sample.pull_search
  = [nth 1 (App.seedTasks Sample.seed) Sample.far].
Proof.
  destruct (search_stage Sample.pull_search) as (_ & _ & H).
  apply (H (nth 0 (App.seedTasks Sample.seed) Sample.far)
           (nth 1 (App.seedTasks Sample.seed) Sample.far));
    try reflexivity.
  rewrite <- includes_spec. vm_compute. discriminate.
Defined.

(** ** Adding a task *)

Lemma trim_title_cases a :
  let title := Js.trim (Draft.title (App.draft a)) in
  (title = "" /\ Js.truthy title = false)
  \/ (title <> "" /\ Js.truthy title = true).
Proof.
  intros title. destruct title; simpl; [left | right]; split; congruence.
Qed.

(** C2, as the specification words it, fails: committing a draft whose
    title is blank leaves the draft as the user typed it. *)
Lemma addTask_blank_title_keeps_draft :
  Js.trim (Draft.title (App.draft Sample.blank_title)) = ""
  /\ App.draft (App.addTask Sample.now Sample.blank_title)
     = Draft.mk "   " "bring slides" "2026-02-01" High
  /\ App.draft (App.addTask Sample.now Sample.blank_title) <> Draft.defaults.
Proof.
  split; [reflexivity|]. split; [reflexivity|]. discriminate.
Qed.

(** C2, amended: [addTask] with a draft whose trimmed title is empty
    returns at once; no task is created and the draft keeps all its
    fields.  The draft is reset to its defaults only when a task was
    added. *)
Theorem addTask_draft (now : string) (a : App.t) :
  (Js.trim (Draft.title (App.draft a)) = "" -> App.addTask now a = a)
  /\ (Js.trim (Draft.title (App.draft a)) <> "" ->
      App.draft (App.addTask now a) = Draft.defaults).
Proof.
  unfold App.addTask.
  destruct (trim_title_cases a) as [[He Ht]|[He Ht]]; simpl in He, Ht;
    rewrite Ht; simpl; split; intros H; congruence.
Qed.

Lemma addTask_draft_witness :
  App.addTask Sample.now Sample.blank_title = Sample.blank_title
  /\ App.draft (App.addTask Sample.now Sample.free_text_due) = Draft.defaults.
Proof.
  split.
  - apply (addTask_draft Sample.now Sample.blank_title). reflexivity.
  - apply (addTask_draft Sample.now Sample.free_text_due). discriminate.
Defined.

Lemma stats_total a : Stats.total (App.stats a) = Z.of_nat (List.length (App.tasks a)).
Proof. reflexivity. Qed.

(** C3: for a draft whose trimmed title is not empty, [addTask] appends one
    task at the end of the store: not completed, title and notes trimmed,
    the draft's priority, no due date when the due-date field is empty,
    the id that was next, after which the counter is one higher and
    [total] is one more; for a draft whose trimmed title is empty the
    store and [total] are as before. *)
Theorem addTask_appends (now : string) (a : App.t) :
  let title := Js.trim (Draft.title (App.draft a)) in
  let b := App.addTask now a in
  (title <> "" ->
   exists task,
     App.tasks b = App.tasks a ++ [task]
     /\ Task.completed task = false
     /\ Task.title task = title
     /\ Task.notes task = Js.trim (Draft.notes (App.draft a))
     /\ Task.priority task = Draft.priority (App.draft a)
     /\ (Draft.dueDate (App.draft a) = "" -> Task.dueDate task = None)
     /\ Task.createdAt task = now
     /\ Task.id task = App.nextId a
     /\ App.nextId b = App.nextId a + 1
     /\ Stats.total (App.stats b) = Stats.total (App.stats a) + 1)
  /\ (title = "" ->
      App.tasks b = App.tasks a
      /\ App.nextId b = App.nextId a
      /\ Stats.total (App.stats b) = Stats.total (App.stats a)).
Proof.
  intros title b. unfold b, App.addTask.
  destruct (trim_title_cases a) as [[He Ht]|[He Ht]]; simpl in He, Ht;
    fold title in He, Ht |- *; rewrite Ht; simpl negb; cbv iota.
  - split; [intros H; contradiction | intros _; repeat split].
  - split; [intros _ | intros H; contradiction].
    eexists. split; [reflexivity|].
    repeat split.
    + intros Hd. simpl. now rewrite Hd.
    + rewrite !stats_total. simpl App.tasks.
      rewrite length_app. simpl. lia.
Qed.

Lemma addTask_appends_witness :
  exists task,
    App.tasks (App.addTask Sample.now Sample.free_text_due)
      = App.seedTasks Sample.seed ++ [task]
    /\ Task.id task = 4 /\ Task.title task = "Book venue"
    /\ Task.notes task = "ask Ana".
Proof.
  destruct (addTask_appends Sample.now Sample.free_text_due) as [H _].
  destruct H as (task & Hl & _ & Ht & Hn & _ & _ & _ & Hi & _);
    [discriminate|].
  exists task. repeat split; assumption.
Defined.

(** C9: [addTask] does not look at the format of the due-date field: when
    a task is added, a non-empty field is stored as it is, whatever it
    holds, and the task has no due date exactly when the field is the
    empty string. *)
Theorem addTask_dueDate_verbatim (now : string) (a : App.t) :
  Js.trim (Draft.title (App.draft a)) <> "" ->
  exists task,
    App.tasks (App.addTask now a) = App.tasks a ++ [task]
    /\ (Draft.dueDate (App.draft a) <> "" ->
        Task.dueDate task = Some (Draft.dueDate (App.draft a)))
    /\ (Task.dueDate task = None <-> Draft.dueDate (App.draft a) = "").
Proof.
  intros Hne. unfold App.addTask.
  destruct (trim_title_cases a) as [[He Ht]|[He Ht]]; simpl in He, Ht;
    [contradiction|].
  rewrite Ht. simpl negb. cbv iota.
  eexists. split; [reflexivity|]. simpl.
  destruct (Draft.dueDate (App.draft a)); unfold Js.or_undefined; simpl;
    intuition congruence.
Qed.

Lemma addTask_dueDate_verbatim_witness :
  exists task,
    App.tasks (App.addTask Sample.now Sample.free_text_due)
      = App.seedTasks Sample.seed ++ [task]
    /\ Task.dueDate task = Some "next week".
Proof.
  destruct (addTask_dueDate_verbatim Sample.now Sample.free_text_due)
    as (task & Hl & Hd & _); [discriminate|].
  exists task. split; [exact Hl|]. apply Hd. discriminate.
Defined.

(** ** Toggling, completing and clearing *)

Lemma toggle_map_id i l :
  map Task.id
      (map (fun x => if Task.id x =? i
                     then Task.with_completed (negb (Task.completed x)) x
                     else x) l)
  = map Task.id l.
Proof.
  rewrite map_map. apply map_ext. intros x.
  now destruct (Task.id x =? i).
Qed.

(** C5: toggling the same id twice gives back the store it started from,
    task by task; one toggle flips [completed] on the tasks with that id
    and leaves every other field and every other task as it was; and an
    id that no task has leaves the store unchanged. *)
Theorem toggleCompletion_twice (i : Z) (a : App.t) :
  App.toggleCompletion i (App.toggleCompletion i a) = a
  /\ Forall2
       (fun x y =>
          same_but_completed x y
          /\ Task.completed y
             = if Task.id x =? i then negb (Task.completed x)
               else Task.completed x)
       (App.tasks a) (App.tasks (App.toggleCompletion i a))
  /\ (~ In i (map Task.id (App.tasks a)) -> App.toggleCompletion i a = a).
Proof.
  destruct a as [f q k l d n].
  unfold App.toggleCompletion, App.set_tasks. simpl.
  split; [|split].
  - f_equal. rewrite map_map.
    induction l as [|x l IH]; simpl; [reflexivity|].
    rewrite IH. f_equal.
    destruct (Task.id x =? i) eqn:E; simpl; [|now rewrite E].
    rewrite E. destruct x; simpl. now rewrite negb_involutive.
  - induction l as [|x l IH]; simpl; constructor; [|exact IH].
    destruct (Task.id x =? i); split; reflexivity.
  - intros Hi. f_equal.
    induction l as [|x l IH]; simpl in *; [reflexivity|].
    rewrite IH by tauto. f_equal.
    destruct (Z.eqb_spec (Task.id x) i); [|reflexivity].
    exfalso. apply Hi. now left.
Qed.

Lemma toggleCompletion_twice_witness :
  App.toggleCompletion 7 (App.init Sample.seed) = App.init Sample.seed.
Proof.
  apply (toggleCompletion_twice 7 (App.init Sample.seed)).
  vm_compute. intuition discriminate.
Defined.

(** C10: [completeAll] followed by [clearCompleted] empties the store and
    touches nothing else; [completeAll] sets [completed] on every task and
    keeps its other fields, and [clearCompleted] keeps, in order, exactly
    the tasks that are not completed. *)
Theorem completeAll_then_clearCompleted (a : App.t) :
  App.clearCompleted (App.completeAll a) = App.set_tasks [] a
  /\ Forall2
       (fun x y => same_but_completed x y /\ Task.completed y = true)
       (App.tasks a) (App.tasks (App.completeAll a))
  /\ (forall x, In x (App.tasks (App.clearCompleted a)) <->
                In x (App.tasks a) /\ Task.completed x = false)
  /\ (forall p, List.filter p (App.tasks (App.clearCompleted a))
                = List.filter (fun x => negb (Task.completed x) && p x)
                              (App.tasks a)).
Proof.
  destruct a as [f q k l d n].
  unfold App.clearCompleted, App.completeAll, App.set_tasks. simpl.
  split; [|split; [|split]].
  - f_equal. induction l as [|x l IH]; simpl; [reflexivity | exact IH].
  - induction l as [|x l IH]; simpl; constructor; [|exact IH].
    split; reflexivity.
  - intros x. rewrite filter_In, negb_true_iff. reflexivity.
  - intros p. induction l as [|x l IH]; simpl; [reflexivity|].
    destruct (Task.completed x); simpl; [exact IH|].
    now rewrite IH.
Qed.

(** ** Counting *)

Lemma count_split {A} (p : A -> bool) l :
  Z.of_nat (List.length l)
  = Z.of_nat (List.length (List.filter p l))
    + Z.of_nat (List.length (List.filter (fun x => negb (p x)) l)).
Proof. rewrite <- (filter_length p l). lia. Qed.

(** The seeded store counts three tasks, one of them completed. *)
Example stats_seed s : App.stats (App.init s) = Stats.mk 3 1 2.
Proof. reflexivity. Qed.

(** C4: in every state that a sequence of events reaches from the seeded
    store, [active + completed = total], where [total] is the number of
    tasks, [completed] the number of completed ones, and [active] (hence)
    the number of the others. *)
Theorem stats_balance (s : Seed.t) (es : list Event) :
  let a := run (App.init s) es in
  let st := App.stats a in
  Stats.active st + Stats.completed st = Stats.total st
  /\ Stats.total st = Z.of_nat (List.length (App.tasks a))
  /\ Stats.completed st
     = Z.of_nat (List.length (List.filter Task.completed (App.tasks a)))
  /\ Stats.active st
     = Z.of_nat (List.length
                   (List.filter (fun x => negb (Task.completed x))
                                (App.tasks a))).
Proof.
  intros a st. unfold st, App.stats. simpl.
  pose proof (count_split Task.completed (App.tasks a)).
  repeat split; lia.
Qed.

(** ** The id counter *)

Lemma filter_ids_incl (p : Task.t -> bool) l i :
  In i (map Task.id (List.filter p l)) -> In i (map Task.id l).
Proof.
  rewrite !in_map_iff. intros (x & Hx & Hin).
  apply filter_In in Hin. exists x. tauto.
Qed.

Lemma filter_ids_NoDup (p : Task.t -> bool) l :
  NoDup (map Task.id l) -> NoDup (map Task.id (List.filter p l)).
Proof.
  induction l as [|x l IH]; simpl; [trivial|].
  rewrite NoDup_cons_iff. intros [Hx Hl].
  destruct (p x); simpl; [|auto].
  constructor; [|auto].
  intros Hin. apply Hx. eapply filter_ids_incl, Hin.
Qed.

Lemma completeAll_map_id l :
  map Task.id (map (Task.with_completed true) l) = map Task.id l.
Proof. rewrite map_map. now apply map_ext. Qed.

Lemma ids_below_iff a :
  Forall (fun x => Task.id x < App.nextId a) (App.tasks a) <->
  Forall (fun i => i < App.nextId a) (ids a).
Proof. unfold ids. now rewrite Forall_map. Qed.

(** What one event does to the ids in use and to the counter: an id in use
    afterwards was in use before or is the old counter value, which the
    counter has then moved past. *)
Lemma step_ids a e :
  App.nextId a <= App.nextId (step a e)
  /\ (forall i, In i (ids (step a e)) ->
        In i (ids a) \/ (i = App.nextId a /\ i < App.nextId (step a e)))
  /\ (NoDup (ids a) -> Forall (fun i => i < App.nextId a) (ids a) ->
      NoDup (ids (step a e))).
Proof.
  unfold ids.
  destruct e; simpl;
    unfold App.addTask, App.toggleCompletion, App.removeTask,
           App.clearCompleted, App.completeAll, App.onSortChange; simpl;
    rewrite ?toggle_map_id, ?completeAll_map_id;
    try (split; [lia | split; [now left | trivial]]).
  - destruct (Js.truthy (Js.trim (Draft.title (App.draft a)))); simpl;
      [|split; [lia | split; [now left | trivial]]].
    rewrite map_app. simpl. split; [lia|]. split.
    + intros i Hi. apply in_app_or in Hi as [Hi|[<-|[]]]; [now left|].
      right. split; [reflexivity | lia].
    + intros Hn Hb. apply NoDup_app; [exact Hn | repeat constructor; tauto |].
      intros i Hi [<-|[]]. rewrite Forall_forall in Hb.
      specialize (Hb _ Hi). lia.
  - split; [lia|]. split; [|intros; now apply filter_ids_NoDup].
    intros i Hi. left. eapply filter_ids_incl, Hi.
  - split; [lia|]. split; [|intros; now apply filter_ids_NoDup].
    intros i Hi. left. eapply filter_ids_incl, Hi.
Qed.

Lemma step_ids_ok a e : ids_ok a -> ids_ok (step a e).
Proof.
  unfold ids_ok. rewrite !ids_below_iff. fold (ids a) (ids (step a e)).
  intros [Hb Hn]. destruct (step_ids a e) as (Hm & Ho & Hd).
  split; [|auto].
  rewrite Forall_forall in *. intros i Hi.
  destruct (Ho i Hi) as [H|[_ H]]; [|exact H].
  specialize (Hb i H). lia.
Qed.

Lemma run_ids_ok es : forall a, ids_ok a -> ids_ok (run a es).
Proof.
  induction es as [|e es IH]; intros a Ha; simpl; [exact Ha|].
  apply IH. now apply step_ids_ok.
Qed.

Lemma run_nextId es : forall a, App.nextId a <= App.nextId (run a es).
Proof.
  induction es as [|e es IH]; intros a; simpl; [lia|].
  specialize (IH (step a e)). destruct (step_ids a e) as [H _]. lia.
Qed.

Lemma run_ids es : forall a i,
  In i (ids (run a es)) -> In i (ids a) \/ App.nextId a <= i.
Proof.
  induction es as [|e es IH]; intros a i Hi; simpl in Hi; [now left|].
  destruct (step_ids a e) as (Hm & Ho & _).
  destruct (IH _ _ Hi) as [H|H]; [|right; lia].
  destruct (Ho i H) as [H'|[-> _]]; [now left | right; lia].
Qed.

Lemma init_ids_ok s : ids_ok (App.init s).
Proof.
  split; simpl.
  - repeat constructor.
  - repeat constructor; simpl; intuition discriminate.
Qed.

(** C6: in every state that a sequence of events reaches from the seeded
    store, every task's id is below the counter and no two tasks have the
    same id; the counter never goes down, whatever events follow; and an
    id that was in use and no longer is stays out of use for ever. *)
Theorem ids_never_reused (s : Seed.t) (es : list Event) :
  let a := run (App.init s) es in
  Forall (fun x => Task.id x < App.nextId a) (App.tasks a)
  /\ NoDup (map Task.id (App.tasks a))
  /\ (forall es', App.nextId a <= App.nextId (run a es'))
  /\ (forall x es' es'',
        In x (App.tasks a) ->
        ~ In (Task.id x) (map Task.id (App.tasks (run a es'))) ->
        ~ In (Task.id x)
             (map Task.id (App.tasks (run (run a es') es'')))).
Proof.
  intros a.
  assert (ids_ok a) as [Hb Hn] by apply run_ids_ok, init_ids_ok.
  split; [exact Hb|]. split; [exact Hn|].
  split; [intros; apply run_nextId|].
  intros x es' es'' Hx Hgone Hback.
  apply run_ids in Hback as [H|H]; [now apply Hgone|].
  rewrite Forall_forall in Hb. specialize (Hb x Hx).
  pose proof (run_nextId es' a). lia.
Qed.

Lemma ids_never_reused_witness :
  ids (run (run (App.init Sample.seed) Sample.remove_first) Sample.add_one)
    = [2; 3; 4]
  /\ ~ In 1 (ids (run (run (App.init Sample.seed) Sample.remove_first)
                      Sample.add_one)).
Proof.
  split; [reflexivity|].
  destruct (ids_never_reused Sample.seed []) as (_ & _ & _ & H).
  apply (H (nth 0 (App.seedTasks Sample.seed) Sample.far)
           Sample.remove_first Sample.add_one).
  - simpl. now left.
  - vm_compute. intuition discriminate.
Defined.

(** ** Removing a task *)

Lemma filter_all_true {A} (p : A -> bool) l :
  (forall x, In x l -> p x = true) -> List.filter p l = l.
Proof.
  induction l as [|x l IH]; simpl; intros H; [reflexivity|].
  rewrite (H x (or_introl eq_refl)), IH; auto.
Qed.

Lemma filter_filter {A} (p q : A -> bool) l :
  List.filter p (List.filter q l) = List.filter (fun x => q x && p x) l.
Proof.
  induction l as [|x l IH]; simpl; [reflexivity|].
  destruct (q x); simpl; [destruct (p x)|]; now rewrite IH.
Qed.

(** [removeTask] keeps exactly the tasks with another id; an id that no
    task has leaves the state as it is; removing twice is removing once;
    and whatever the filter, search text and sort key, a removed id is
    not in the visible list. *)
Theorem removeTask_removes (i : Z) (a : App.t) :
  (forall x, In x (App.tasks (App.removeTask i a)) <->
             In x (App.tasks a) /\ Task.id x <> i)
  /\ (~ In i (ids a) -> App.removeTask i a = a)
  /\ App.removeTask i (App.removeTask i a) = App.removeTask i a
  /\ (forall f q k d n,
        ~ In i (map Task.id
                  (App.visibleTasks
                     (App.mk f q k (App.tasks (App.removeTask i a)) d n)))).
Proof.
  destruct a as [f0 q0 k0 l d0 n0].
  unfold App.removeTask, App.set_tasks, ids. simpl.
  assert (forall x, In x (List.filter (fun y => negb (Task.id y =? i)) l)
                    <-> In x l /\ Task.id x <> i) as Hin.
  { intros x. rewrite filter_In, negb_true_iff, Z.eqb_neq. reflexivity. }
  split; [exact Hin|]. split; [|split].
  - intros Hi. f_equal. apply filter_all_true. intros x Hx.
    rewrite negb_true_iff, Z.eqb_neq. intros <-.
    apply Hi, in_map, Hx.
  - f_equal. rewrite filter_filter. apply filter_ext. intros x.
    now destruct (Task.id x =? i).
  - intros f q k d n Hi. apply in_map_iff in Hi as (x & Hx & Hv).
    apply visibleTasks_In in Hv as (Hv & _). simpl in Hv.
    apply Hin in Hv. tauto.
Qed.

Lemma removeTask_removes_witness :
  App.removeTask 9 (App.init Sample.seed) = App.init Sample.seed.
Proof.
  destruct (removeTask_removes 9 (App.init Sample.seed)) as (_ & H & _).
  apply H. vm_compute. intuition discriminate.
Defined.

Lemma remove_unique_length i l :
  NoDup (map Task.id l) -> In i (map Task.id l) ->
  S (List.length (List.filter (fun x => negb (Task.id x =? i)) l))
  = List.length l.
Proof.
  induction l as [|x l IH]; simpl; [tauto|].
  rewrite NoDup_cons_iff. intros [Hx Hl] Hi.
  destruct (Z.eqb_spec (Task.id x) i) as [E|E]; simpl.
  - rewrite filter_all_true; [lia|].
    intros y Hy. rewrite negb_true_iff, Z.eqb_neq. intros E'.
    apply Hx. rewrite E, <- E'. now apply in_map.
  - destruct Hi as [Hi|Hi]; [contradiction|].
    specialize (IH Hl Hi). lia.
Qed.

(** In a state reached from the seeded store, removing an id that is in
    use takes exactly one task away: [total] goes down by one. *)
Theorem removeTask_total (s : Seed.t) (es : list Event) (i : Z) :
  let a := run (App.init s) es in
  In i (ids a) ->
  Stats.total (App.stats (App.removeTask i a))
  = Stats.total (App.stats a) - 1.
Proof.
  intros a Hi.
  assert (ids_ok a) as [_ Hn] by apply run_ids_ok, init_ids_ok.
  rewrite !stats_total. unfold App.removeTask. simpl.
  pose proof (remove_unique_length i (App.tasks a) Hn Hi). lia.
Qed.

Lemma removeTask_total_witness :
  Stats.total (App.stats (App.removeTask 2 (App.init Sample.seed))) = 2.
Proof.
  apply (removeTask_total Sample.seed [] 2). simpl. tauto.
Defined.

(** In a state reached from the seeded store, adding a task and then
    removing the id it was given gives back the task list there was:
    the new id belongs to the new task alone. *)
Theorem addTask_then_removeTask (s : Seed.t) (es : list Event) (now : string) :
  let a := run (App.init s) es in
  App.tasks (App.removeTask (App.nextId a) (App.addTask now a)) = App.tasks a.
Proof.
  intros a.
  assert (ids_ok a) as [Hb _] by apply run_ids_ok, init_ids_ok.
  assert (List.filter (fun x => negb (Task.id x =? App.nextId a)) (App.tasks a)
          = App.tasks a) as Hkeep.
  { apply filter_all_true. intros x Hx. rewrite Forall_forall in Hb.
    specialize (Hb x Hx). rewrite negb_true_iff, Z.eqb_neq. lia. }
  unfold App.addTask.
  destruct (Js.truthy (Js.trim (Draft.title (App.draft a)))); simpl.
  - rewrite filter_app, Hkeep. simpl. rewrite Z.eqb_refl. simpl.
    apply app_nil_r.
  - exact Hkeep.
Qed.

(** [addTask] called twice in a row adds at most one task: the first call
    either did nothing or left a blank draft, so the second changes
    nothing. *)
Theorem addTask_twice (now now' : string) (a : App.t) :
  App.addTask now' (App.addTask now a) = App.addTask now a.
Proof.
  assert (Js.truthy
            (Js.trim (Draft.title (App.draft (App.addTask now a)))) = false)
    as Hblank.
  { unfold App.addTask.
    destruct (Js.truthy (Js.trim (Draft.title (App.draft a)))) eqn:E; simpl;
      [reflexivity | exact E]. }
  unfold App.addTask at 1. now rewrite Hblank.
Qed.

(** ** Operations on the store commute *)

(** Toggling two ids, removing two ids, and toggling one id while removing
    another give the same state in either order. *)
Theorem store_operations_commute (i j : Z) (a : App.t) :
  App.toggleCompletion i (App.toggleCompletion j a)
  = App.toggleCompletion j (App.toggleCompletion i a)
  /\ App.removeTask i (App.removeTask j a)
     = App.removeTask j (App.removeTask i a)
  /\ App.removeTask i (App.toggleCompletion j a)
     = App.toggleCompletion j (App.removeTask i a).
Proof.
  destruct a as [f q k l d n].
  unfold App.toggleCompletion, App.removeTask, App.set_tasks. simpl.
  split; [|split]; f_equal.
  - rewrite !map_map. apply map_ext. intros x.
    destruct (Task.id x =? i) eqn:Ei, (Task.id x =? j) eqn:Ej; simpl;
      rewrite ?Ei, ?Ej; reflexivity.
  - rewrite !filter_filter. apply filter_ext. intros x.
    apply andb_comm.
  - induction l as [|x l IH]; simpl; [reflexivity|].
    destruct (Task.id x =? j) eqn:Ej; simpl;
      destruct (Task.id x =? i); simpl; rewrite ?Ej, IH; reflexivity.
Qed.

(** ** More on the sort stage *)

Lemma string_compare_refl s : String.compare s s = Eq.
Proof.
  induction s as [|c s IH]; simpl; [reflexivity|].
  unfold Ascii.compare. now rewrite N.compare_refl.
Qed.

Lemma localeCompare_refl s : Js.localeCompare s s = 0.
Proof. unfold Js.localeCompare. now rewrite string_compare_refl. Qed.


Lemma visibleTasks_sorted a :
  StronglySorted (fun x y => App.comparator (App.sort a) x y <= 0)
                 (App.visibleTasks a).
Proof.
  unfold App.visibleTasks. apply sort_sorted; destruct (App.sort a); simpl.
  - intros x y. apply localeCompare_total.
  - apply compareDue_total.
  - apply comparePriority_total.
  - intros x y z H1 H2. unfold App.compareCreated in *.
    now apply localeCompare_trans with (Task.createdAt y).
  - apply compareDue_trans.
  - apply comparePriority_trans.
Qed.

(** With the sort key [created] the visible list holds the tasks that
    passed the filter, newest first: no task stands before one whose
    [createdAt] compares greater; tasks created at the same instant keep
    the order they have in the store. *)
Theorem created_sort_order (a : App.t) :
  App.sort a = Created ->
  let out := App.visibleTasks a in
  Permutation out (App.filtered a)
  /\ StronglySorted
       (fun x y => Js.localeCompare (Task.createdAt y) (Task.createdAt x) <= 0)
       out
  /\ (forall c, List.filter (created_at c) out
                = List.filter (created_at c) (App.filtered a)).
Proof.
  intros Hk out. split; [apply visibleTasks_perm|]. split.
  - pose proof (visibleTasks_sorted a) as Hs. rewrite Hk in Hs. exact Hs.
  - intros c. unfold out, App.visibleTasks. rewrite Hk. apply sort_stable.
    intros x y Hx Hy. unfold created_at in *. simpl. unfold App.compareCreated.
    apply String.eqb_eq in Hx, Hy. rewrite Hx, Hy, localeCompare_refl. lia.
Qed.

Lemma created_sort_order_witness :
  map Task.id (App.visibleTasks (App.init Sample.seed)) = [1; 3; 2]
  /\ StronglySorted
       (fun x y => Js.localeCompare (Task.createdAt y) (Task.createdAt x) <= 0)
       (App.visibleTasks (App.init Sample.seed)).
Proof.
  split; [reflexivity|].
  apply (created_sort_order (App.init Sample.seed)). reflexivity.
Defined.

Lemma filter_cons_eq {A} (p : A -> bool) x l :
  List.filter p (x :: l) = if p x then x :: List.filter p l else List.filter p l.
Proof. reflexivity. Qed.

Lemma filter_none {A} (p : A -> bool) l :
  (forall x, In x l -> p x = false) -> List.filter p l = [].
Proof.
  induction l as [|x l IH]; simpl; intros H; [reflexivity|].
  rewrite (H x (or_introl eq_refl)). auto.
Qed.

Lemma priority_blocks l :
  StronglySorted (fun x y => App.comparePriority x y <= 0) l ->
  l = List.filter (has_priority High) l
      ++ List.filter (has_priority Medium) l
      ++ List.filter (has_priority Low) l.
Proof.
  induction 1 as [|x l Hs IH Hx]; [reflexivity|].
  assert (forall p, App.order p < App.order (Task.priority x) ->
                    List.filter (has_priority p) l = []) as Hnone.
  { intros p Hp. apply filter_none.
    intros y Hy. rewrite Forall_forall in Hx.
    specialize (Hx y Hy). unfold App.comparePriority, has_priority in *.
    destruct p, (Task.priority x), (Task.priority y); simpl in *;
      try reflexivity; lia. }
  rewrite !filter_cons_eq.
  destruct (has_priority High x) eqn:EH, (has_priority Medium x) eqn:EM,
           (has_priority Low x) eqn:EL;
    unfold has_priority in EH, EM, EL;
    destruct (Task.priority x); try discriminate; simpl in Hnone;
    rewrite ?(Hnone High), ?(Hnone Medium) in IH |- * by (simpl; lia);
    simpl in *; congruence.
Qed.

(** With the sort key [priority] the visible list is the high-priority
    tasks that passed the filter, then the medium ones, then the low ones,
    each block in store order. *)
Theorem priority_sort_blocks (a : App.t) :
  App.sort a = ByPriority ->
  App.visibleTasks a
  = List.filter (has_priority High) (App.filtered a)
    ++ List.filter (has_priority Medium) (App.filtered a)
    ++ List.filter (has_priority Low) (App.filtered a).
Proof.
  intros Hk.
  pose proof (visibleTasks_sorted a) as Hs. rewrite Hk in Hs. simpl in Hs.
  rewrite (priority_blocks _ Hs) at 1.
  unfold App.visibleTasks. rewrite Hk. simpl App.comparator.
  assert (forall p, List.filter (has_priority p)
                      (Js.sort App.comparePriority (App.filtered a))
                    = List.filter (has_priority p) (App.filtered a)) as E.
  { intros p. apply sort_stable. intros x y Hx Hy.
    unfold has_priority, App.comparePriority in *.
    destruct p, (Task.priority x), (Task.priority y);
      simpl; try discriminate; lia. }
  now rewrite !E.
Qed.

Lemma priority_sort_blocks_witness :
  map Task.id (App.visibleTasks Sample.by_priority) = [2; 3; 4; 1].
Proof.
  rewrite (priority_sort_blocks Sample.by_priority); reflexivity.
Defined.




(** ** Trimming and lower-casing *)

Lemma lowerChar_idem c : Js.lowerChar (Js.lowerChar c) = Js.lowerChar c.
Proof. destruct c as [[] [] [] [] [] [] [] []]; reflexivity. Qed.

Lemma isWhiteSpace_lowerChar c :
  Js.isWhiteSpace (Js.lowerChar c) = Js.isWhiteSpace c.
Proof. destruct c as [[] [] [] [] [] [] [] []]; reflexivity. Qed.

Lemma toLowerCase_idem s : Js.toLowerCase (Js.toLowerCase s) = Js.toLowerCase s.
Proof.
  induction s as [|c s IH]; simpl; [reflexivity|].
  now rewrite lowerChar_idem, IH.
Qed.

Lemma trimStart_toLowerCase s :
  Js.trimStart (Js.toLowerCase s) = Js.toLowerCase (Js.trimStart s).
Proof.
  induction s as [|c s IH]; simpl; [reflexivity|].
  rewrite isWhiteSpace_lowerChar. now destruct (Js.isWhiteSpace c).
Qed.

Lemma trimEnd_toLowerCase s :
  Js.trimEnd (Js.toLowerCase s) = Js.toLowerCase (Js.trimEnd s).
Proof.
  induction s as [|c s IH]; simpl; [reflexivity|].
  rewrite IH, isWhiteSpace_lowerChar.
  destruct (Js.trimEnd s); simpl; [|reflexivity].
  now destruct (Js.isWhiteSpace c).
Qed.

Lemma trim_toLowerCase s :
  Js.trim (Js.toLowerCase s) = Js.toLowerCase (Js.trim s).
Proof.
  unfold Js.trim. now rewrite trimStart_toLowerCase, trimEnd_toLowerCase.
Qed.

Lemma trimEnd_idem s : Js.trimEnd (Js.trimEnd s) = Js.trimEnd s.
Proof.
  induction s as [|c s IH]; simpl; [reflexivity|].
  destruct (Js.trimEnd s) as [|d t] eqn:E.
  - destruct (Js.isWhiteSpace c) eqn:W; simpl; [reflexivity|].
    now rewrite W.
  - change (Js.trimEnd (String c (String d t)))
      with (match Js.trimEnd (String d t) with
            | EmptyString =>
                if Js.isWhiteSpace c then EmptyString else String c EmptyString
            | r' => String c r'
            end).
    now rewrite IH.
Qed.

Lemma trimStart_cases s :
  Js.trimStart s = ""
  \/ exists c r, Js.trimStart s = String c r /\ Js.isWhiteSpace c = false.
Proof.
  induction s as [|c s IH]; simpl; [now left|].
  destruct (Js.isWhiteSpace c) eqn:W; [exact IH|].
  right. now exists c, s.
Qed.

Lemma trimEnd_head c r :
  Js.isWhiteSpace c = false -> exists r', Js.trimEnd (String c r) = String c r'.
Proof.
  intros W. simpl. rewrite W. destruct (Js.trimEnd r); eauto.
Qed.

Lemma trim_idem s : Js.trim (Js.trim s) = Js.trim s.
Proof.
  unfold Js.trim.
  destruct (trimStart_cases s) as [E|(c & r & E & W)]; rewrite E;
    [reflexivity|].
  destruct (trimEnd_head c r W) as [r' E'].
  assert (Js.trimStart (Js.trimEnd (String c r)) = Js.trimEnd (String c r))
    as Hs by (rewrite E'; simpl; now rewrite W).
  rewrite Hs. apply trimEnd_idem.
Qed.

(** The visible list depends on the search text only up to case and
    surrounding white space: the text trimmed, or lower-cased, shows the
    same tasks as the text itself. *)
Theorem search_text_normalised (text : string) (a : App.t) :
  App.visibleTasks (App.onSearchChange (Js.trim text) a)
  = App.visibleTasks (App.onSearchChange text a)
  /\ App.visibleTasks (App.onSearchChange (Js.toLowerCase text) a)
     = App.visibleTasks (App.onSearchChange text a).
Proof.
  unfold App.visibleTasks, App.filtered, App.onSearchChange. simpl.
  rewrite trim_idem, trim_toLowerCase, toLowerCase_idem. now split.
Qed.

(** ** What every task in the store looks like *)

Lemma run_invariant (P : App.t -> Prop) :
  (forall a e, P a -> P (step a e)) ->
  forall es a, P a -> P (run a es).
Proof.
  intros Hstep. induction es as [|e es IH]; intros a Ha; simpl; auto.
Qed.

Lemma Forall_tasks_step (P : Task.t -> Prop) a e :
  (forall b x, P x -> P (Task.with_completed b x)) ->
  (forall now,
      Js.truthy (Js.trim (Draft.title (App.draft a))) = true ->
      P (Task.mk (App.nextId a)
                 (Js.trim (Draft.title (App.draft a)))
                 (Js.trim (Draft.notes (App.draft a)))
                 (Draft.priority (App.draft a))
                 (Js.or_undefined (Draft.dueDate (App.draft a)))
                 false now)) ->
  Forall P (App.tasks a) -> Forall P (App.tasks (step a e)).
Proof.
  intros Hc Hnew Ha.
  assert (forall p, Forall P (List.filter p (App.tasks a))) as Hf.
  { intros p. rewrite Forall_forall in *. intros x Hx.
    apply filter_In in Hx. now apply Ha. }
  destruct e; simpl; auto.
  - unfold App.addTask.
    destruct (Js.truthy (Js.trim (Draft.title (App.draft a)))) eqn:E; simpl;
      [|exact Ha].
    apply Forall_app. split; [exact Ha|]. constructor; auto.
  - rewrite Forall_map. eapply Forall_impl; [|exact Ha].
    intros x Hx. destruct (Task.id x =? taskId); auto.
  - rewrite Forall_map. eapply Forall_impl; [|exact Ha]. auto.
Qed.

(** In every state reached from the seeded store each task has a title
    that is not empty, and a title and notes without white space at
    either end. *)
Theorem texts_stay_trimmed (s : Seed.t) (es : list Event) :
  Forall texts_trimmed (App.tasks (run (App.init s) es)).
Proof.
  apply (run_invariant (fun a => Forall texts_trimmed (App.tasks a))).
  - intros a e. apply Forall_tasks_step.
    + intros b x H. exact H.
    + intros now Ht. unfold texts_trimmed. simpl.
      rewrite !trim_idem. apply truthy_true in Ht. auto.
  - repeat constructor; discriminate.
Qed.

(** In every state reached from the seeded store a task made by
    [addTask] (any id from 4 on) has either no due date or a due date
    that is not the empty string. *)
Theorem added_dueDate_not_empty (s : Seed.t) (es : list Event) :
  let a := run (App.init s) es in
  Forall (fun x => 4 <= Task.id x -> Task.dueDate x <> Some "") (App.tasks a).
Proof.
  apply (run_invariant
           (fun a => Forall (fun x => 4 <= Task.id x ->
                                      Task.dueDate x <> Some "")
                            (App.tasks a))).
  - intros a e. apply Forall_tasks_step.
    + intros b x H. exact H.
    + intros now _ _. simpl. unfold Js.or_undefined.
      destruct (Draft.dueDate (App.draft a)); simpl; congruence.
  - repeat constructor; simpl; lia.
Qed.

Lemma added_dueDate_not_empty_witness :
  Forall (fun x => 4 <= Task.id x -> Task.dueDate x <> Some "")
         (App.tasks (run (App.init Sample.seed) Sample.add_one))
  /\ map Task.dueDate
         (List.filter (fun x => 4 <=? Task.id x)
                      (App.tasks (run (App.init Sample.seed) Sample.add_one)))
     = [None].
Proof.
  split; [|reflexivity].
  apply (added_dueDate_not_empty Sample.seed Sample.add_one).
Defined.

(** ** The store is in id order *)

Lemma sorted_lt_snoc l n :
  StronglySorted Z.lt l -> Forall (fun i => i < n) l ->
  StronglySorted Z.lt (l ++ [n]).
Proof.
  induction 1 as [|i l Hs IH Hi]; simpl; intros Hb.
  - repeat constructor.
  - apply Forall_cons_iff in Hb as [Hin Hb]. constructor; [auto|].
    apply Forall_app. split; [exact Hi | now repeat constructor].
Qed.

Lemma sorted_filter_ids (p : Task.t -> bool) l :
  StronglySorted Z.lt (map Task.id l) ->
  StronglySorted Z.lt (map Task.id (List.filter p l)).
Proof.
  induction l as [|x l IH]; simpl; [trivial|].
  intros H. apply StronglySorted_inv in H as [Hs Hx].
  destruct (p x); simpl; [|auto].
  constructor; [auto|].
  rewrite Forall_forall in *. intros i Hi.
  apply Hx. eapply filter_ids_incl, Hi.
Qed.

Lemma step_sorted_ids a e :
  Forall (fun i => i < App.nextId a) (ids a) ->
  StronglySorted Z.lt (ids a) -> StronglySorted Z.lt (ids (step a e)).
Proof.
  unfold ids. intros Hb Hs.
  destruct e; simpl;
    unfold App.addTask, App.toggleCompletion, App.removeTask,
           App.clearCompleted, App.completeAll; simpl;
    rewrite ?toggle_map_id, ?completeAll_map_id;
    auto using sorted_filter_ids.
  destruct (Js.truthy (Js.trim (Draft.title (App.draft a)))); simpl;
    [|exact Hs].
  rewrite map_app. simpl. now apply sorted_lt_snoc.
Qed.

(** In every state reached from the seeded store the tasks stand in the
    order of their ids, strictly ascending and starting no lower than 1:
    the store lists the tasks in the order in which they were created. *)
Theorem store_in_id_order (s : Seed.t) (es : list Event) :
  let a := run (App.init s) es in
  StronglySorted Z.lt (ids a) /\ Forall (fun i => 1 <= i) (ids a).
Proof.
  intros a.
  assert (ids_ok a /\ StronglySorted Z.lt (ids a)) as [_ Hs].
  { apply (run_invariant (fun a => ids_ok a /\ StronglySorted Z.lt (ids a))).
    - intros b e [Hok Hs]. split; [now apply step_ids_ok|].
      apply step_sorted_ids; [|exact Hs].
      apply ids_below_iff, Hok.
    - split; [apply init_ids_ok|]. simpl.
      repeat constructor. }
  split; [exact Hs|].
  assert (4 <= App.nextId a /\ Forall (fun i => 1 <= i) (ids a)) as [_ H].
  { apply (run_invariant
             (fun a => 4 <= App.nextId a /\ Forall (fun i => 1 <= i) (ids a))).
    - intros b e [Hn Hf]. destruct (step_ids b e) as (Hm & Ho & _).
      split; [lia|]. rewrite Forall_forall in *. intros i Hi.
      destruct (Ho i Hi) as [H|[-> _]]; [auto | lia].
    - split; simpl; [lia|].
      repeat (apply Forall_cons; [simpl; lia|]). constructor. }
  exact H.
Qed.

(** ** Counters after the store operations *)

Lemma filter_completed_all l :
  List.filter Task.completed (map (Task.with_completed true) l)
  = map (Task.with_completed true) l.
Proof. induction l as [|x l IH]; simpl; congruence. Qed.

(** After [completeAll] every task counts as completed and none as
    active; after [clearCompleted] the tasks left are the ones that were
    active, and none of them is completed. *)
Theorem bulk_stats (a : App.t) :
  App.stats (App.completeAll a)
  = Stats.mk (Stats.total (App.stats a)) (Stats.total (App.stats a)) 0
  /\ App.stats (App.clearCompleted a)
     = Stats.mk (Stats.active (App.stats a)) 0 (Stats.active (App.stats a)).
Proof.
  unfold App.stats, App.completeAll, App.clearCompleted. simpl. split.
  - rewrite filter_completed_all, length_map. f_equal. lia.
  - pose proof (count_split Task.completed (App.tasks a)) as Hc.
    rewrite filter_filter.
    rewrite (filter_none (fun x => negb (Task.completed x) && Task.completed x))
      by (intros x _; destruct (Task.completed x); reflexivity).
    simpl. f_equal; lia.
Qed.

(** [completeAll] and [clearCompleted] do nothing the second time. *)
Theorem bulk_idempotent (a : App.t) :
  App.completeAll (App.completeAll a) = App.completeAll a
  /\ App.clearCompleted (App.clearCompleted a) = App.clearCompleted a.
Proof.
  unfold App.completeAll, App.clearCompleted, App.set_tasks. simpl.
  split; f_equal.
  - rewrite map_map. now apply map_ext.
  - rewrite filter_filter. apply filter_ext. intros x.
    now destruct (Task.completed x).
Qed.

Lemma toggle_count i l x :
  NoDup (map Task.id l) -> In x l -> Task.id x = i ->
  Z.of_nat
    (List.length
       (List.filter Task.completed
          (map (fun y => if Task.id y =? i
                         then Task.with_completed (negb (Task.completed y)) y
                         else y) l)))
  = Z.of_nat (List.length (List.filter Task.completed l))
    + (if Task.completed x then -1 else 1).
Proof.
  induction l as [|y l IH]; [simpl; tauto|].
  cbn [map In]. rewrite NoDup_cons_iff. intros [Hy Hl] Hin Hi.
  destruct (Z.eqb_spec (Task.id y) i) as [E|E].
  - assert (x = y) as ->.
    { destruct Hin as [H|H]; [now symmetry|].
      exfalso. apply Hy. rewrite E, <- Hi. now apply in_map. }
    rewrite (map_ext_in _ (fun z => z)), map_id.
    + rewrite !filter_cons_eq. cbn [Task.completed Task.with_completed].
      destruct (Task.completed y); cbn [negb List.length]; lia.
    + intros z Hz. destruct (Z.eqb_spec (Task.id z) i) as [E'|]; [|reflexivity].
      exfalso. apply Hy. rewrite E, <- E'. now apply in_map.
  - destruct Hin as [H|H]; [subst; contradiction|].
    specialize (IH Hl H Hi). rewrite !filter_cons_eq.
    destruct (Task.completed y); cbn [List.length]; lia.
Qed.

(** In a state reached from the seeded store, toggling the id of a task
    that is in the store keeps [total] and moves [completed] by one: up
    when the task was active, down when it was completed. *)
Theorem toggleCompletion_stats (s : Seed.t) (es : list Event) (x : Task.t) :
  let a := run (App.init s) es in
  In x (App.tasks a) ->
  let st := App.stats (App.toggleCompletion (Task.id x) a) in
  Stats.total st = Stats.total (App.stats a)
  /\ Stats.completed st
     = Stats.completed (App.stats a) + (if Task.completed x then -1 else 1).
Proof.
  intros a Hx st.
  assert (ids_ok a) as [_ Hn] by apply run_ids_ok, init_ids_ok.
  unfold st, App.stats, App.toggleCompletion. simpl. split.
  - now rewrite length_map.
  - now apply toggle_count.
Qed.

Lemma toggleCompletion_stats_witness :
  Stats.completed
    (App.stats (App.toggleCompletion 2 (App.init Sample.seed))) = 0.
Proof.
  apply (toggleCompletion_stats Sample.seed []
           (nth 1 (App.seedTasks Sample.seed) Sample.far)).
  simpl. tauto.
Defined.

(** ** The filter stage and the counters *)

Lemma filter_split_perm {A} (c p : A -> bool) l :
  Permutation (List.filter p l)
              (List.filter (fun x => negb (c x) && p x) l
               ++ List.filter (fun x => c x && p x) l).
Proof.
  induction l as [|x l IH]; simpl; [constructor|].
  destruct (c x), (p x); simpl; auto.
  now apply Permutation_cons_app.
Qed.

(** For one store, search text and sort key, the list shown under [all]
    is made of the list shown under [active] and the list shown under
    [completed]; the first holds no completed task and the second nothing
    else. *)
Theorem filter_views_partition q k l d n :
  let view f := App.visibleTasks (App.mk f q k l d n) in
  Permutation (view All) (view Active ++ view Completed)
  /\ Forall (fun x => Task.completed x = false) (view Active)
  /\ Forall (fun x => Task.completed x = true) (view Completed).
Proof.
  intros view. split; [|split].
  - unfold view. rewrite !visibleTasks_perm.
    unfold App.filtered. simpl.
    apply (filter_split_perm Task.completed).
  - apply Forall_forall. intros x Hx. apply visibleTasks_In in Hx.
    simpl in Hx. destruct Hx as (_ & Hx & _). now apply negb_true_iff.
  - apply Forall_forall. intros x Hx. apply visibleTasks_In in Hx.
    simpl in Hx. tauto.
Qed.

(** The visible list never holds more tasks than [total]; and while the
    trimmed search text is empty its length is the counter that goes with
    the filter: [total] under [all], [active] under [active], [completed]
    under [completed]. *)
Theorem visible_counts (a : App.t) :
  Z.of_nat (List.length (App.visibleTasks a)) <= Stats.total (App.stats a)
  /\ (Js.trim (App.search a) = "" ->
      Z.of_nat (List.length (App.visibleTasks a))
      = match App.filter a with
        | All => Stats.total (App.stats a)
        | Active => Stats.active (App.stats a)
        | Completed => Stats.completed (App.stats a)
        end).
Proof.
  rewrite (Permutation_length (visibleTasks_perm a)). split.
  - unfold App.filtered. rewrite stats_total.
    apply inj_le, filter_length_le.
  - intros Hq. unfold App.filtered, App.matchesSearch. rewrite Hq. simpl.
    pose proof (count_split Task.completed (App.tasks a)) as Hc.
    destruct (App.filter a); simpl.
    + now rewrite filter_all_true by reflexivity.
    + rewrite (filter_ext _ (fun x => negb (Task.completed x)))
        by (intros x; apply andb_true_r).
      lia.
    + rewrite (filter_ext _ Task.completed)
        by (intros x; apply andb_true_r).
      reflexivity.
Qed.

Lemma visible_counts_witness :
  Z.of_nat (List.length
              (App.visibleTasks (App.updateFilter Active (App.init Sample.seed))))
  = 2.
Proof.
  apply (visible_counts (App.updateFilter Active (App.init Sample.seed))).
  reflexivity.
Defined.

(** ** Looking at the store does not change it *)

(** Events that only change the view (filter, sort key, search text,
    draft fields) leave the tasks, the counter and the counters of
    [stats] as they were; and the store operations other than [addTask]
    leave filter, search text, sort key and draft as they were. *)
Theorem view_and_store_apart (a : App.t) (es : list Event) :
  (forallb view_event es = true ->
   App.tasks (run a es) = App.tasks a
   /\ App.nextId (run a es) = App.nextId a
   /\ App.stats (run a es) = App.stats a)
  /\ (forallb store_event es = true ->
      App.filter (run a es) = App.filter a
      /\ App.search (run a es) = App.search a
      /\ App.sort (run a es) = App.sort a
      /\ App.draft (run a es) = App.draft a).
Proof.
  split; revert a.
  - induction es as [|e es IH]; intros a H; simpl in *; [auto|].
    apply andb_true_iff in H as [He H].
    destruct (IH (step a e) H) as (Ht & Hn & Hs).
    rewrite Ht, Hn, Hs. destruct e; try discriminate; auto.
  - induction es as [|e es IH]; intros a H; simpl in *; [auto|].
    apply andb_true_iff in H as [He H].
    destruct (IH (step a e) H) as (Hf & Hq & Hk & Hd).
    rewrite Hf, Hq, Hk, Hd. destruct e; try discriminate; auto.
Qed.

Lemma view_and_store_apart_witness :
  App.tasks
    (run (App.init Sample.seed)
         [UpdateFilter Completed; SearchChange "plan"; UpdateSort Due])
  = App.seedTasks Sample.seed.
Proof.
  apply (view_and_store_apart (App.init Sample.seed)
           [UpdateFilter Completed; SearchChange "plan"; UpdateSort Due]).
  reflexivity.
Defined.

(** ** More on the visible list *)

(** In every state reached from the seeded store no id occurs twice in
    the visible list, and every visible task is a task of the store. *)
Theorem visible_no_duplicates (s : Seed.t) (es : list Event) :
  let a := run (App.init s) es in
  NoDup (map Task.id (App.visibleTasks a))
  /\ incl (App.visibleTasks a) (App.tasks a).
Proof.
  intros a.
  assert (ids_ok a) as [_ Hn] by apply run_ids_ok, init_ids_ok.
  split.
  - eapply Permutation_NoDup.
    + apply Permutation_map. symmetry. apply visibleTasks_perm.
    + unfold App.filtered. now apply filter_ids_NoDup.
  - intros x Hx. now apply visibleTasks_In in Hx.
Qed.

Lemma string_app_assoc (a b c : string) :
  ((a ++ b) ++ c = a ++ b ++ c)%string.
Proof. induction a as [|x a IH]; simpl; congruence. Qed.

Lemma substring_of_trans a b c :
  substring_of a b -> substring_of b c -> substring_of a c.
Proof.
  intros (p1 & s1 & ->) (p2 & s2 & ->).
  exists (p2 ++ p1)%string, (s1 ++ s2)%string.
  now rewrite !string_app_assoc.
Qed.

Lemma substring_of_empty a : substring_of a "" -> a = "".
Proof.
  intros (p & q & H). destruct p; [|discriminate].
  destruct a; [reflexivity | discriminate].
Qed.

(** Narrowing the search never brings a task in: when the normalised
    text of one search occurs inside that of another, every task shown
    for the longer text is shown for the shorter one. *)
Theorem search_narrows (a : App.t) (short long : string) :
  substring_of (Js.toLowerCase (Js.trim short))
               (Js.toLowerCase (Js.trim long)) ->
  incl (App.visibleTasks (App.onSearchChange long a))
       (App.visibleTasks (App.onSearchChange short a)).
Proof.
  intros Hsub x. rewrite !visibleTasks_In. simpl.
  intros (Hin & Hf & Hm). split; [exact Hin|]. split; [exact Hf|].
  apply matchesSearch_spec in Hm. apply matchesSearch_spec.
  destruct Hm as [E|[H|H]].
  - left. rewrite E in Hsub. now apply substring_of_empty.
  - right. left. now apply substring_of_trans with (2 := H).
  - right. right. now apply substring_of_trans with (2 := H).
Qed.

Lemma search_narrows_witness :
  incl (App.visibleTasks (App.onSearchChange " Pull req" (App.init Sample.seed)))
       (App.visibleTasks (App.onSearchChange "PULL" (App.init Sample.seed))).
Proof.
  apply (search_narrows (App.init Sample.seed) "PULL" " Pull req").
  exists "", " req". reflexivity.
Defined.
